(** * VTIL-Common/math/operators.hpp

    A shallow embedding of the operator catalogue of [vtil::math]: the
    [operator_id] enumeration, the [operator_desc] record with its
    [to_string] printer, the static [descriptors] table, the lookup
    [descriptor_of] and the width rounder [round_bit_count].

    Conventions.
    - Fixed-width unsigned integers ([uint8_t], [size_t]) and [int8_t] are
      values of [Z] inside their range.
    - A [const char*] is an [option string]: [None] is [nullptr].
    - A pointer into the table returned by [descriptor_of] is an
      [option operator_desc]: [None] is [nullptr].
    - Code whose behaviour is undefined ([unreachable()], a null pointer handed
      to a [%s] conversion) yields a [Fault]. *)

From Stdlib Require Import ZArith String Ascii List Bool Lia.
Import ListNotations.

Local Open Scope string_scope.
Local Open Scope Z_scope.

(* ------------------------------------------------------------------ *)
(** ** The enumeration [operator_id] *)

Module operator_id.

(** The enumerators, in declaration order. *)
Inductive t : Set :=
| invalid
(* bitwise operators *)
| bitwise_not
| bitwise_and
| bitwise_or
| bitwise_xor
| shift_right
| shift_left
| rotate_right
| rotate_left
(* arithmetic operators *)
| negate
| add
| substract
| multiply_high
| multiply
| divide
| remainder
| umultiply_high
| umultiply
| udivide
| uremainder
(* special operators *)
| zero_extend
| sign_extend
| popcnt
| most_sig_bit
| least_sig_bit
| bit_test
| mask
| bit_count
| value_if
| max_value
| min_value
| smax_value
| smin_value
| greater
| greater_eq
| equal
| not_equal
| less_eq
| less
| ugreater
| ugreater_eq
| uless_eq
| uless
| max.

Definition enumerators : list t :=
  [ invalid;
    bitwise_not; bitwise_and; bitwise_or; bitwise_xor;
    shift_right; shift_left; rotate_right; rotate_left;
    negate; add; substract;
    multiply_high; multiply; divide; remainder;
    umultiply_high; umultiply; udivide; uremainder;
    zero_extend; sign_extend; popcnt; most_sig_bit; least_sig_bit;
    bit_test; mask; bit_count; value_if;
    max_value; min_value; smax_value; smin_value;
    greater; greater_eq; equal; not_equal; less_eq; less;
    ugreater; ugreater_eq; uless_eq; uless;
    max ].

(** The value of an enumerator in the underlying type [int]: no enumerator
    has an initialiser, so each one is its position in the declaration. *)
Definition to_Z (x : t) : Z :=
  match x with
  | invalid => 0
  | bitwise_not => 1
  | bitwise_and => 2
  | bitwise_or => 3
  | bitwise_xor => 4
  | shift_right => 5
  | shift_left => 6
  | rotate_right => 7
  | rotate_left => 8
  | negate => 9
  | add => 10
  | substract => 11
  | multiply_high => 12
  | multiply => 13
  | divide => 14
  | remainder => 15
  | umultiply_high => 16
  | umultiply => 17
  | udivide => 18
  | uremainder => 19
  | zero_extend => 20
  | sign_extend => 21
  | popcnt => 22
  | most_sig_bit => 23
  | least_sig_bit => 24
  | bit_test => 25
  | mask => 26
  | bit_count => 27
  | value_if => 28
  | max_value => 29
  | min_value => 30
  | smax_value => 31
  | smin_value => 32
  | greater => 33
  | greater_eq => 34
  | equal => 35
  | not_equal => 36
  | less_eq => 37
  | less => 38
  | ugreater => 39
  | ugreater_eq => 40
  | uless_eq => 41
  | uless => 42
  | max => 43
  end.

(** The enumerator with a given underlying value, when there is one.  An
    object of type [operator_id] can hold any [int]; outside [0..43] it
    names no enumerator. *)
Definition of_Z (v : Z) : option t :=
  if v <? 0 then None else nth_error enumerators (Z.to_nat v).

End operator_id.

(* ------------------------------------------------------------------ *)
(** ** Undefined behaviour and the formatting helper *)

Inductive fault : Set :=
| unreachable_reached      (* control arrived at [unreachable()] *)
| null_string_formatted    (* a null [const char*] given to [%s] *)
| missing_argument         (* a conversion with no argument left *)
| unsupported_conversion.  (* a conversion other than [%s] *)

Inductive outcome (A : Type) : Type :=
| Ok (a : A)
| Fault (f : fault).

Arguments Ok {A} a.
Arguments Fault {A} f.

Definition outcome_map {A B : Type} (g : A -> B) (o : outcome A) : outcome B :=
  match o with
  | Ok a => Ok (g a)
  | Fault f => Fault f
  end.

Module format.

(** Modelled from the spec: [format::str] lives in the formatting header of
    VTIL-Common and is only called, never defined, in operators.hpp.  It is
    the [snprintf] wrapper the printer is written against, so it is modelled
    with the semantics of the [printf] family for the one conversion the
    printer uses: each [%s] of the format is replaced by the next argument,
    every other character is copied, and arguments left over once the format
    is exhausted are ignored.  The printing forms of the spec
    ([(lhs symbol rhs)], [function_name(lhs, rhs)]) are what this
    substitution gives on the printer's binary formats. *)
Fixpoint str (fmt : string) (args : list (option string)) : outcome string :=
  match fmt with
  | EmptyString => Ok EmptyString
  | String "%" (String "s" rest) =>
      match args with
      | Some a :: args' => outcome_map (append a) (str rest args')
      | None :: _ => Fault null_string_formatted
      | [] => Fault missing_argument
      end
  | String "%" _ => Fault unsupported_conversion
  | String c rest => outcome_map (String c) (str rest args)
  end.

End format.

(* ------------------------------------------------------------------ *)
(** ** The descriptor record and its printer *)

Record operator_desc : Set := mk_operator_desc {
  (* >0 if bitwise operations are preferred as operands, <0 if arithmetic,
     0 if neutral ([int8_t]). *)
  hint_bitwise : Z;
  (* whether it expects signed operands ([int8_t]) *)
  is_signed : Z;
  (* number of operands it takes ([size_t]) *)
  operand_count : Z;
  (* whether the operation is commutative *)
  is_commutative : bool;
  (* symbol of the operation ([const char*]) *)
  symbol : option string;
  (* name of the function associated with the operation ([const char*]) *)
  function_name : option string;
  (* operator used to self-join by; the member's default is [invalid] *)
  join_by : operator_id.t
}.

(** Conversion of a [bool] initialiser to the [int8_t] member [is_signed]. *)
Definition int8_of_bool (b : bool) : Z := if b then 1 else 0.

(** [operator_desc::to_string]. *)
Definition to_string (d : operator_desc) (lhs rhs : string) : outcome string :=
  if operand_count d =? 1 then
    (* unary function: the symbol if it has one, else function format *)
    match symbol d with
    | Some sym => Ok (sym ++ rhs)
    | None => format.str "%s(%s)" [function_name d; Some lhs; Some rhs]
    end
  else if operand_count d =? 2 then
    (* binary function: the symbol if it has one, else function format *)
    match symbol d with
    | Some sym => format.str "(%s%s%s)" [Some lhs; Some sym; Some rhs]
    | None => format.str "%s(%s, %s)" [function_name d; Some lhs; Some rhs]
    end
  else Fault unreachable_reached.

(* ------------------------------------------------------------------ *)
(** ** The static table [descriptors] *)

(** One aggregate initialiser of the table, columns as in the source:
    bitwise hint, signed, operand count, commutative, symbol, name, join-by. *)
Definition entry (bitwise : Z) (signed : bool) (n_op : Z) (commutative : bool)
    (sym : option string) (name : string) (join : operator_id.t)
  : operator_desc :=
  {| hint_bitwise := bitwise;
     is_signed := int8_of_bool signed;
     operand_count := n_op;
     is_commutative := commutative;
     symbol := sym;
     function_name := Some name;
     join_by := join |}.

(** An initialiser that stops after the name: [join_by] takes its default
    member initialiser, [operator_id::invalid]. *)
Definition entry_nojoin (bitwise : Z) (signed : bool) (n_op : Z)
    (commutative : bool) (sym : option string) (name : string)
  : operator_desc :=
  entry bitwise signed n_op commutative sym name operator_id.invalid.

(** The empty initialiser [{}]: every member value-initialised, [join_by] at
    its default. *)
Definition empty_entry : operator_desc :=
  {| hint_bitwise := 0;
     is_signed := 0;
     operand_count := 0;
     is_commutative := false;
     symbol := None;
     function_name := None;
     join_by := operator_id.invalid |}.

Definition nullptr : option string := None.

Definition descriptors : list operator_desc :=
  [ (* skipping ::invalid *)
    empty_entry;
    (*           bitwise signed #op commutative symbol      name          join by *)
    entry_nojoin   1     false  1   false  (Some "~")   "not";
    entry          1     false  2   true   (Some "&")   "and"         operator_id.bitwise_and;
    entry          1     false  2   true   (Some "|")   "or"          operator_id.bitwise_or;
    entry          1     false  2   true   (Some "^")   "xor"         operator_id.bitwise_xor;
    entry          1     false  2   false  (Some ">>")  "shr"         operator_id.add;
    entry          1     false  2   false  (Some "<<")  "shl"         operator_id.add;
    entry          1     false  2   false  (Some ">]")  "rotr"        operator_id.add;
    entry          1     false  2   false  (Some "[<")  "rotl"        operator_id.add;
    entry_nojoin (-1)    true   1   false  (Some "-")   "neg";
    entry        (-1)    true   2   true   (Some "+")   "add"         operator_id.add;
    entry        (-1)    true   2   false  (Some "-")   "sub"         operator_id.add;
    entry_nojoin (-1)    true   2   true   (Some "h*")  "mulhi";
    entry        (-1)    true   2   true   (Some "*")   "mul"         operator_id.multiply;
    entry        (-1)    true   2   false  (Some "/")   "div"         operator_id.multiply;
    entry_nojoin (-1)    true   2   false  (Some "%")   "rem";
    entry_nojoin (-1)    false  2   true   (Some "uh*") "umulhi";
    entry        (-1)    false  2   true   (Some "u*")  "umul"        operator_id.umultiply;
    entry        (-1)    false  2   false  (Some "u/")  "udiv"        operator_id.umultiply;
    entry_nojoin (-1)    false  2   false  (Some "u%")  "urem";
    entry_nojoin   0     false  2   false  nullptr      "__zx";
    entry_nojoin (-1)    true   2   false  nullptr      "__sx";
    entry_nojoin   1     false  1   false  nullptr      "__popcnt";
    entry_nojoin   1     false  2   false  nullptr      "__msb";
    entry_nojoin   1     false  2   false  nullptr      "__lsb";
    entry_nojoin   1     false  2   false  nullptr      "__bt";
    entry_nojoin   1     false  1   false  nullptr      "__mask";
    entry_nojoin   1     false  1   false  nullptr      "__bcnt";
    entry_nojoin   0     false  2   false  (Some "?")   "if";
    entry          0     false  2   false  nullptr      "max"         operator_id.max_value;
    entry          0     false  2   false  nullptr      "min"         operator_id.min_value;
    entry          0     true   2   false  nullptr      "max_sgn"     operator_id.smax_value;
    entry          0     true   2   false  nullptr      "min_sgn"     operator_id.smin_value;
    entry_nojoin (-1)    true   2   false  (Some ">")   "greater";
    entry_nojoin (-1)    true   2   false  (Some ">=")  "greater_eq";
    entry_nojoin   0     false  2   false  (Some "==")  "equal";
    entry_nojoin   0     false  2   false  (Some "!=")  "not_equal";
    entry_nojoin (-1)    true   2   false  (Some "<=")  "less_eq";
    entry_nojoin (-1)    true   2   false  (Some "<")   "less";
    entry_nojoin   0     false  2   false  (Some "u>")  "ugreater";
    entry_nojoin   0     false  2   false  (Some "u>=") "ugreater_eq";
    entry_nojoin   0     false  2   false  (Some "u<=") "uless_eq";
    entry_nojoin   0     false  2   false  (Some "u<")  "uless" ].

(** The conversion [(size_t) id] of an [int] to the 64-bit unsigned index. *)
Definition size_t_of_int (v : Z) : Z := v mod 2 ^ 64.

(** [descriptor_of]: [id] is the value held by the [operator_id] argument;
    the comparisons of the scoped enumeration are those of its values. *)
Definition descriptor_of (id : Z) : option operator_desc :=
  if (operator_id.to_Z operator_id.invalid <? id)
     && (id <? operator_id.to_Z operator_id.max)
  then nth_error descriptors (Z.to_nat (size_t_of_int id))
  else None.

(* ------------------------------------------------------------------ *)
(** ** Result sizes *)

(** Operators that return bit indices always use this size. *)
Definition bit_index_size : Z := 8.

(** [round_bit_count], on a [uint8_t] argument. *)
Definition round_bit_count (n : Z) : Z :=
  if n >? 32 then 64
  else if n >? 16 then 32
  else if n >? 8 then 16
  else if n >? 1 then 8
  else 1.

(** The values of [uint8_t]. *)
Definition is_uint8 (n : Z) : Prop := 0 <= n < 256.

(** The rounding rule in the words of the design document: 1 if [n <= 1],
    8 if [n <= 8], 16 if [n <= 16], 32 if [n <= 32], 64 otherwise. *)
Definition rounded_width_spec (n : Z) : Z :=
  if n <=? 1 then 1
  else if n <=? 8 then 8
  else if n <=? 16 then 16
  else if n <=? 32 then 32
  else 64.

(** The canonical result widths. *)
Definition canonical_widths : list Z := [1; 8; 16; 32; 64].

(* ------------------------------------------------------------------ *)
(** ** Reading the table *)

(** A valid id is one strictly between [invalid] and [max]. *)
Definition valid_id (id : Z) : Prop :=
  operator_id.to_Z operator_id.invalid < id < operator_id.to_Z operator_id.max.

(** The descriptor of a named enumerator. *)
Definition descriptor_of_enum (op : operator_id.t) : option operator_desc :=
  descriptor_of (operator_id.to_Z op).

(** The operators whose table entry has the commutative flag set. *)
Definition commutative_operators : list operator_id.t :=
  [ operator_id.bitwise_and; operator_id.bitwise_or; operator_id.bitwise_xor;
    operator_id.add;
    operator_id.multiply_high; operator_id.multiply;
    operator_id.umultiply_high; operator_id.umultiply ].

(** Shifts, rotates, the non-commutative arithmetic and the comparisons. *)
Definition noncommutative_examples : list operator_id.t :=
  [ operator_id.substract; operator_id.divide; operator_id.remainder;
    operator_id.shift_right; operator_id.shift_left;
    operator_id.rotate_right; operator_id.rotate_left;
    operator_id.greater; operator_id.greater_eq;
    operator_id.equal; operator_id.not_equal;
    operator_id.less_eq; operator_id.less;
    operator_id.ugreater; operator_id.ugreater_eq;
    operator_id.uless_eq; operator_id.uless ].

(** The comparison operators, by family. *)
Definition equality_comparisons : list operator_id.t :=
  [ operator_id.equal; operator_id.not_equal ].

Definition signed_comparisons : list operator_id.t :=
  [ operator_id.greater; operator_id.greater_eq;
    operator_id.less_eq; operator_id.less ].

Definition unsigned_comparisons : list operator_id.t :=
  [ operator_id.ugreater; operator_id.ugreater_eq;
    operator_id.uless_eq; operator_id.uless ].

(** The operators that take a single operand. *)
Definition unary_operators : list operator_id.t :=
  [ operator_id.bitwise_not; operator_id.negate;
    operator_id.popcnt; operator_id.mask; operator_id.bit_count ].

(** The unary operators printed in function format. *)
Definition unary_function_operators : list operator_id.t :=
  [ operator_id.popcnt; operator_id.mask; operator_id.bit_count ].

(** What the printer needs of a descriptor: one or two operands and a name. *)
Definition printable (d : operator_desc) : Prop :=
  (operand_count d = 1 \/ operand_count d = 2) /\ function_name d <> None.

(* ================================================================== *)
(** * Properties *)

(** ** The enumeration *)

Lemma to_Z_declaration_order :
  map operator_id.to_Z operator_id.enumerators = map Z.of_nat (seq 0 44).
Proof. reflexivity. Qed.

Lemma to_Z_injective (x y : operator_id.t) :
  operator_id.to_Z x = operator_id.to_Z y -> x = y.
Proof. destruct x, y; simpl; intros H; solve [reflexivity | discriminate H]. Qed.

Lemma of_Z_to_Z (x : operator_id.t) :
  operator_id.of_Z (operator_id.to_Z x) = Some x.
Proof. destruct x; reflexivity. Qed.

Lemma enumerators_nth (n : nat) :
  (n < 44)%nat ->
  exists op, nth_error operator_id.enumerators n = Some op
             /\ operator_id.to_Z op = Z.of_nat n.
Proof.
  intros Hn.
  do 44 (destruct n as [|n]; [eexists; split; reflexivity|]).
  lia.
Qed.

(** Every value in the range of the enumeration is the value of exactly the
    enumerator [of_Z] finds. *)
Lemma of_Z_in_range (v : Z) :
  0 <= v <= 43 ->
  exists op, operator_id.of_Z v = Some op /\ operator_id.to_Z op = v.
Proof.
  intros Hv. unfold operator_id.of_Z.
  destruct (Z.ltb_spec v 0) as [Hneg|_]; [lia|].
  destruct (enumerators_nth (Z.to_nat v)) as (op & Hnth & Hval); [lia|].
  exists op. split; [exact Hnth|]. rewrite Hval. lia.
Qed.

(** A valid id is the value of an enumerator other than the two sentinels. *)
Lemma valid_id_enumerator (id : Z) :
  valid_id id ->
  exists op, operator_id.to_Z op = id
             /\ op <> operator_id.invalid /\ op <> operator_id.max.
Proof.
  unfold valid_id; simpl; intros Hid.
  destruct (of_Z_in_range id) as (op & _ & Hval); [lia|].
  exists op. repeat split; [exact Hval| |]; intros ->; simpl in Hval; lia.
Qed.

(** ** The lookup *)

Lemma size_t_of_int_small (v : Z) : 0 <= v < 2 ^ 64 -> size_t_of_int v = v.
Proof. intros Hv. unfold size_t_of_int. now apply Z.mod_small. Qed.

Lemma descriptor_of_valid (id : Z) :
  valid_id id -> descriptor_of id = nth_error descriptors (Z.to_nat id).
Proof.
  unfold valid_id, descriptor_of; simpl operator_id.to_Z; intros [Hlo Hhi].
  destruct (Z.ltb_spec 0 id); [|lia].
  destruct (Z.ltb_spec id 43); [|lia].
  simpl andb. rewrite size_t_of_int_small; [reflexivity|].
  change (2 ^ 64) with 18446744073709551616. lia.
Qed.

Lemma descriptor_of_invalid (id : Z) :
  ~ valid_id id -> descriptor_of id = None.
Proof.
  unfold valid_id, descriptor_of; simpl operator_id.to_Z; intros Hid.
  destruct (Z.ltb_spec 0 id); [|reflexivity].
  destruct (Z.ltb_spec id 43); [lia|reflexivity].
Qed.

Lemma descriptors_length : length descriptors = 43%nat.
Proof. reflexivity. Qed.

Lemma descriptor_of_valid_Some (id : Z) :
  valid_id id -> exists d, descriptor_of id = Some d.
Proof.
  intros Hid. rewrite (descriptor_of_valid id Hid).
  destruct (nth_error descriptors (Z.to_nat id)) as [d|] eqn:Hnth.
  - now exists d.
  - apply nth_error_None in Hnth. rewrite descriptors_length in Hnth.
    unfold valid_id in Hid; simpl in Hid. lia.
Qed.

Lemma valid_id_dec (id : Z) : {valid_id id} + {~ valid_id id}.
Proof.
  unfold valid_id; simpl.
  destruct (Z_lt_dec 0 id); [destruct (Z_lt_dec id 43)|]; [left|right|right]; lia.
Qed.

(** C1. For every operator id, [descriptor_of id] returns a descriptor if and
    only if [invalid < id < max]; for [id = invalid], [id = max] and every id
    outside the range of the enumeration it returns nothing; and the
    descriptor returned for a valid id is the table entry at index [id]. *)
Theorem descriptor_of_catalog_density (id : Z) :
  ((exists d, descriptor_of id = Some d) <-> valid_id id)
  /\ (~ valid_id id -> descriptor_of id = None)
  /\ (forall d, descriptor_of id = Some d ->
                nth_error descriptors (Z.to_nat id) = Some d)
  /\ descriptor_of (operator_id.to_Z operator_id.invalid) = None
  /\ descriptor_of (operator_id.to_Z operator_id.max) = None.
Proof.
  split; [split|split; [|split; [|split; reflexivity]]].
  - intros [d Hd]. destruct (valid_id_dec id) as [Hv|Hn]; [exact Hv|].
    rewrite (descriptor_of_invalid id Hn) in Hd. discriminate Hd.
  - apply descriptor_of_valid_Some.
  - apply descriptor_of_invalid.
  - intros d Hd. destruct (valid_id_dec id) as [Hv|Hn].
    + now rewrite <- (descriptor_of_valid id Hv).
    + rewrite (descriptor_of_invalid id Hn) in Hd. discriminate Hd.
Qed.

Lemma descriptor_of_catalog_density_witness :
  ~ valid_id (-1) /\ descriptor_of (-1) = None
  /\ valid_id 22
  /\ nth_error descriptors (Z.to_nat 22) = descriptor_of 22.
Proof.
  assert (Hout : ~ valid_id (-1)) by (unfold valid_id; simpl; lia).
  assert (Hin : valid_id 22) by (unfold valid_id; simpl; lia).
  split; [exact Hout|]. split; [|split; [exact Hin|]].
  - exact (proj1 (proj2 (descriptor_of_catalog_density (-1))) Hout).
  - destruct (proj2 (proj1 (descriptor_of_catalog_density 22)) Hin) as [d Hd].
    rewrite Hd.
    exact (proj1 (proj2 (proj2 (descriptor_of_catalog_density 22))) d Hd).
Defined.

(** ** The width rounder *)

Lemma round_bit_count_canonical (n : Z) :
  In (round_bit_count n) canonical_widths.
Proof.
  unfold round_bit_count, canonical_widths.
  repeat match goal with
         | |- context [?a >? ?b] => destruct (a >? b)
         end; simpl; tauto.
Qed.

Ltac round_cases :=
  unfold round_bit_count, rounded_width_spec;
  repeat match goal with
         | |- context [?a >? ?b] => destruct (Z.gtb_spec a b)
         | |- context [?a <=? ?b] => destruct (Z.leb_spec a b)
         end.

Lemma round_bit_count_refines_spec (n : Z) :
  round_bit_count n = rounded_width_spec n.
Proof. round_cases; lia. Qed.

(** C2. For every raw bit count [n <= 64], [round_bit_count n] is 1 if
    [n <= 1], 8 if [n <= 8], 16 if [n <= 16], 32 if [n <= 32] and 64
    otherwise; in particular its result is one of 1, 8, 16, 32, 64. *)
Theorem round_bit_count_cases (n : Z) :
  is_uint8 n -> n <= 64 ->
  (n <= 1 -> round_bit_count n = 1)
  /\ (1 < n <= 8 -> round_bit_count n = 8)
  /\ (8 < n <= 16 -> round_bit_count n = 16)
  /\ (16 < n <= 32 -> round_bit_count n = 32)
  /\ (32 < n -> round_bit_count n = 64)
  /\ round_bit_count n = rounded_width_spec n
  /\ In (round_bit_count n) canonical_widths.
Proof.
  intros _ _.
  repeat apply conj;
    [ intros; round_cases; lia .. | apply round_bit_count_refines_spec
    | apply round_bit_count_canonical ].
Qed.

Lemma round_bit_count_cases_witness :
  is_uint8 24 /\ 24 <= 64 /\ round_bit_count 24 = 32
  /\ round_bit_count 24 = rounded_width_spec 24.
Proof.
  assert (H8 : is_uint8 24) by (unfold is_uint8; lia).
  assert (H64 : 24 <= 64) by lia.
  destruct (round_bit_count_cases 24 H8 H64) as (_ & _ & _ & H32 & _ & Hspec & _).
  split; [exact H8|]. split; [exact H64|].
  split; [apply H32; lia | exact Hspec].
Defined.

(** C9. [round_bit_count] is idempotent and monotone on 8-bit arguments, and
    never rounds an argument of at most 64 downwards. *)
Theorem round_bit_count_idempotent_monotone (n m : Z) :
  is_uint8 n -> is_uint8 m ->
  round_bit_count (round_bit_count n) = round_bit_count n
  /\ (n <= m -> round_bit_count n <= round_bit_count m)
  /\ (n <= 64 -> n <= round_bit_count n).
Proof.
  unfold is_uint8; intros Hn Hm. split; [|split].
  - destruct (round_bit_count_canonical n) as [H|[H|[H|[H|[H|[]]]]]];
      rewrite <- H; reflexivity.
  - intros Hle. round_cases; lia.
  - intros Hle. round_cases; lia.
Qed.

Lemma round_bit_count_idempotent_monotone_witness :
  is_uint8 9 /\ is_uint8 33
  /\ round_bit_count (round_bit_count 9) = round_bit_count 9
  /\ round_bit_count 9 <= round_bit_count 33
  /\ 9 <= round_bit_count 9.
Proof.
  assert (H9 : is_uint8 9) by (unfold is_uint8; lia).
  assert (H33 : is_uint8 33) by (unfold is_uint8; lia).
  destruct (round_bit_count_idempotent_monotone 9 33 H9 H33) as (Hi & Hm & Hb).
  split; [exact H9|]. split; [exact H33|].
  split; [exact Hi|]. split; [apply Hm; lia | apply Hb; lia].
Defined.

(** ** The size of the table *)

(** The entry of a valid id, read in the table and in the table without its
    first entry. *)
Lemma descriptor_of_valid_entry (id : Z) :
  valid_id id ->
  exists d, nth_error descriptors (Z.to_nat id) = Some d
            /\ nth_error (tl descriptors) (Z.to_nat (id - 1)) = Some d
            /\ descriptor_of id = Some d.
Proof.
  intros Hid.
  destruct (descriptor_of_valid_Some id Hid) as [d Hd].
  exists d. rewrite <- (descriptor_of_valid id Hid).
  split; [exact Hd|]. split; [|exact Hd].
  rewrite (descriptor_of_valid id Hid) in Hd.
  unfold valid_id in Hid; simpl in Hid.
  replace (Z.to_nat id) with (S (Z.to_nat (id - 1))) in Hd by lia.
  exact Hd.
Qed.

(** C3, as stated, fails: the table does not have [max - 1] entries. *)
Lemma descriptors_length_not_max_minus_1 :
  Z.of_nat (length descriptors)
  <> operator_id.to_Z operator_id.max - 1.
Proof. rewrite descriptors_length. simpl. lia. Qed.

(** C3, as the table is laid out.  The table has exactly [max] entries: the
    empty initialiser standing at the index of [invalid], followed by
    [max - 1] entries, one for each id strictly between [invalid] and [max],
    the entry of [id] at index [id]. *)
Theorem descriptors_length_is_max :
  Z.of_nat (length descriptors) = operator_id.to_Z operator_id.max
  /\ nth_error descriptors
       (Z.to_nat (operator_id.to_Z operator_id.invalid)) = Some empty_entry
  /\ Z.of_nat (length (tl descriptors)) = operator_id.to_Z operator_id.max - 1
  /\ forall id, valid_id id ->
       exists d, nth_error descriptors (Z.to_nat id) = Some d
                 /\ nth_error (tl descriptors) (Z.to_nat (id - 1)) = Some d
                 /\ descriptor_of id = Some d.
Proof.
  split; [reflexivity|]. split; [reflexivity|]. split; [reflexivity|].
  exact descriptor_of_valid_entry.
Qed.

Lemma descriptors_length_is_max_witness :
  valid_id 42
  /\ nth_error descriptors (Z.to_nat 42) = descriptor_of 42.
Proof.
  assert (Hin : valid_id 42) by (unfold valid_id; simpl; lia).
  split; [exact Hin|].
  destruct (proj2 (proj2 (proj2 descriptors_length_is_max)) 42 Hin)
    as (d & Hnth & _ & Hd).
  rewrite Hd. exact Hnth.
Defined.

(** ** The printer *)

Section Printer.

Variable d : operator_desc.
Variables lhs rhs : string.

Lemma to_string_unary_symbol (sym : string) :
  operand_count d = 1 -> symbol d = Some sym ->
  to_string d lhs rhs = Ok (sym ++ rhs)%string.
Proof. intros Hn Hs. unfold to_string. rewrite Hn, Hs. reflexivity. Qed.

(** The unary function format has a single operand conversion, which
    consumes [lhs]; [rhs] is passed and never printed. *)
Lemma to_string_unary_function (fn : string) :
  operand_count d = 1 -> symbol d = None -> function_name d = Some fn ->
  to_string d lhs rhs = Ok (fn ++ "(" ++ lhs ++ ")")%string.
Proof. intros Hn Hs Hf. unfold to_string. rewrite Hn, Hs, Hf. reflexivity. Qed.

Lemma to_string_binary_symbol (sym : string) :
  operand_count d = 2 -> symbol d = Some sym ->
  to_string d lhs rhs = Ok ("(" ++ lhs ++ sym ++ rhs ++ ")")%string.
Proof. intros Hn Hs. unfold to_string. rewrite Hn, Hs. reflexivity. Qed.

Lemma to_string_binary_function (fn : string) :
  operand_count d = 2 -> symbol d = None -> function_name d = Some fn ->
  to_string d lhs rhs = Ok (fn ++ "(" ++ lhs ++ ", " ++ rhs ++ ")")%string.
Proof. intros Hn Hs Hf. unfold to_string. rewrite Hn, Hs, Hf. reflexivity. Qed.

Lemma to_string_printable :
  printable d -> exists s, to_string d lhs rhs = Ok s.
Proof.
  intros [Hn Hf].
  destruct (function_name d) as [fn|] eqn:Hfn; [|congruence].
  destruct (symbol d) as [sym|] eqn:Hsym; destruct Hn as [Hn|Hn];
    eexists;
    first [ now apply to_string_unary_symbol with (sym := sym)
          | now apply to_string_unary_function with (fn := fn)
          | now apply to_string_binary_symbol with (sym := sym)
          | now apply to_string_binary_function with (fn := fn) ].
Qed.

End Printer.

(** C4, evaluated on the code.  For the unary operators without a symbol the
    printer returns the function name applied to [lhs] alone: the format has
    one operand conversion, and [rhs] does not reach the output. *)
Theorem to_string_unary_function_omits_rhs :
  option_map (fun d => to_string d "a" "b")
             (descriptor_of_enum operator_id.popcnt)
    = Some (Ok "__popcnt(a)")
  /\ option_map (fun d => to_string d "a" "b")
                (descriptor_of_enum operator_id.mask)
       = Some (Ok "__mask(a)")
  /\ option_map (fun d => to_string d "a" "b")
                (descriptor_of_enum operator_id.bit_count)
       = Some (Ok "__bcnt(a)")
  /\ option_map (fun d => to_string d "a" "b")
                (descriptor_of_enum operator_id.popcnt)
       <> Some (Ok "__popcnt(a, b)").
Proof.
  split; [reflexivity|]. split; [reflexivity|]. split; [reflexivity|].
  vm_compute. discriminate.
Qed.

(** C5. With one operand and a symbol the printer returns the symbol followed
    by [rhs]; with two operands and a symbol it returns the parenthesised infix
    form, [lhs], the symbol and [rhs] between brackets with nothing inserted
    between them; with two operands and no symbol it returns the function
    name applied to [lhs] and [rhs], separated by a comma and a blank. *)
Theorem to_string_forms (d : operator_desc) (lhs rhs : string) :
  (forall sym, operand_count d = 1 -> symbol d = Some sym ->
     to_string d lhs rhs = Ok (sym ++ rhs)%string)
  /\ (forall sym, operand_count d = 2 -> symbol d = Some sym ->
        to_string d lhs rhs = Ok ("(" ++ lhs ++ sym ++ rhs ++ ")")%string)
  /\ (forall fn, operand_count d = 2 -> symbol d = None ->
        function_name d = Some fn ->
        to_string d lhs rhs = Ok (fn ++ "(" ++ lhs ++ ", " ++ rhs ++ ")")%string).
Proof.
  split; [|split].
  - apply to_string_unary_symbol.
  - apply to_string_binary_symbol.
  - apply to_string_binary_function.
Qed.

Lemma to_string_forms_witness :
  to_string (entry_nojoin (-1) true 1 false (Some "-") "neg") "x" "y"
    = Ok "-y"
  /\ to_string (entry (-1) true 2 true (Some "+") "add" operator_id.add) "x" "y"
    = Ok "(x+y)"
  /\ to_string (entry_nojoin 1 false 2 false nullptr "__msb") "x" "y"
    = Ok "__msb(x, y)".
Proof.
  split; [|split].
  - exact (proj1 (to_string_forms
                    (entry_nojoin (-1) true 1 false (Some "-") "neg") "x" "y")
                 "-"%string eq_refl eq_refl).
  - exact (proj1 (proj2 (to_string_forms
                    (entry (-1) true 2 true (Some "+") "add" operator_id.add)
                    "x" "y"))
                 "+"%string eq_refl eq_refl).
  - exact (proj2 (proj2 (to_string_forms
                    (entry_nojoin 1 false 2 false nullptr "__msb") "x" "y"))
                 "__msb"%string eq_refl eq_refl eq_refl).
Defined.

(** ** The entries of the table *)

(** Every entry after the placeholder takes one or two operands and has a
    name. *)
Lemma table_printable : Forall printable (tl descriptors).
Proof.
  unfold descriptors; simpl tl.
  repeat (apply Forall_cons;
          [split; [simpl; auto | simpl; discriminate]|]).
  apply Forall_nil.
Qed.

Lemma descriptor_of_in_table (id : Z) (d : operator_desc) :
  descriptor_of id = Some d -> In d (tl descriptors).
Proof.
  intros Hd.
  destruct (valid_id_dec id) as [Hv|Hn].
  - destruct (descriptor_of_valid_entry id Hv)
      as (d' & _ & Htl & Hd').
    assert (d' = d) by congruence. subst d'.
    eapply nth_error_In. exact Htl.
  - rewrite (descriptor_of_invalid id Hn) in Hd. discriminate Hd.
Qed.

(** C6. For every id strictly between [invalid] and [max], the descriptor
    returned by [descriptor_of] takes one or two operands ([msb] and [lsb]
    take two) and has a function name; hence on such a descriptor the
    printer returns a string: it neither arrives at [unreachable()] nor
    formats a null name. *)
Theorem valid_descriptor_printable (id : Z) :
  valid_id id ->
  (exists d, descriptor_of id = Some d
     /\ (operand_count d = 1 \/ operand_count d = 2)
     /\ (exists fn, function_name d = Some fn)
     /\ forall lhs rhs,
          (exists s, to_string d lhs rhs = Ok s)
          /\ to_string d lhs rhs <> Fault unreachable_reached
          /\ to_string d lhs rhs <> Fault null_string_formatted)
  /\ option_map operand_count (descriptor_of_enum operator_id.most_sig_bit)
     = Some 2
  /\ option_map operand_count (descriptor_of_enum operator_id.least_sig_bit)
     = Some 2.
Proof.
  intros Hid. split; [|split; reflexivity].
  destruct (descriptor_of_valid_Some id Hid) as [d Hd].
  exists d. split; [exact Hd|].
  assert (Hp : printable d).
  { apply (proj1 (Forall_forall printable (tl descriptors)) table_printable).
    now apply descriptor_of_in_table with (id := id). }
  split; [exact (proj1 Hp)|]. split.
  - destruct (function_name d) as [fn|] eqn:Hfn.
    + now exists fn.
    + exfalso. apply (proj2 Hp). exact Hfn.
  - intros lhs rhs.
    destruct (to_string_printable d lhs rhs Hp) as [s Hs].
    rewrite Hs. split; [now exists s|]. split; discriminate.
Qed.

Lemma valid_descriptor_printable_witness :
  valid_id 26
  /\ exists d, descriptor_of 26 = Some d
     /\ (operand_count d = 1 \/ operand_count d = 2)
     /\ exists s, to_string d "x" "y" = Ok s.
Proof.
  assert (Hin : valid_id 26) by (unfold valid_id; simpl; lia).
  split; [exact Hin|].
  destruct (proj1 (valid_descriptor_printable 26 Hin))
    as (d & Hd & Hn & _ & Hs).
  exists d. split; [exact Hd|]. split; [exact Hn|].
  exact (proj1 (Hs "x" "y")%string).
Defined.

(** C7. The [add] entry joins by [add] and the [shr] entry joins by [add];
    [rem] and [mulhi] have no join operator, that is, [join_by] is
    [invalid]. *)
Theorem join_by_entries :
  option_map join_by (descriptor_of_enum operator_id.add)
    = Some operator_id.add
  /\ option_map join_by (descriptor_of_enum operator_id.shift_right)
    = Some operator_id.add
  /\ option_map join_by (descriptor_of_enum operator_id.remainder)
    = Some operator_id.invalid
  /\ option_map join_by (descriptor_of_enum operator_id.multiply_high)
    = Some operator_id.invalid.
Proof. repeat apply conj; reflexivity. Qed.

(** C8. In the table, [equal] and [not_equal] are not signed; [greater],
    [greater_eq], [less_eq] and [less] are signed; [ugreater],
    [ugreater_eq], [uless_eq] and [uless] are not signed. *)
Theorem comparison_signedness :
  Forall (fun op => option_map is_signed (descriptor_of_enum op)
                    = Some (int8_of_bool false)) equality_comparisons
  /\ Forall (fun op => option_map is_signed (descriptor_of_enum op)
                       = Some (int8_of_bool true)) signed_comparisons
  /\ Forall (fun op => option_map is_signed (descriptor_of_enum op)
                       = Some (int8_of_bool false)) unsigned_comparisons.
Proof. repeat apply conj; repeat constructor. Qed.

(** C10. The descriptors that report commutativity are exactly those of
    [bitwise_and], [bitwise_or], [bitwise_xor], [add], [multiply_high],
    [multiply], [umultiply_high] and [umultiply]; the descriptor of every
    other valid operator has the flag clear, in particular those of
    [substract], [divide], [remainder], the shifts, the rotates and the
    comparisons. *)
Theorem commutative_flag_exact (id : Z) (d : operator_desc) :
  descriptor_of id = Some d ->
  (is_commutative d = true
   <-> In id (map operator_id.to_Z commutative_operators))
  /\ (~ In id (map operator_id.to_Z commutative_operators)
      -> is_commutative d = false)
  /\ Forall (fun op => option_map is_commutative (descriptor_of_enum op)
                       = Some false) noncommutative_examples.
Proof.
  intros Hd. split; [|split].
  3: { repeat constructor. }
  all: destruct (valid_id_dec id) as [Hv|Hn];
    [| rewrite (descriptor_of_invalid id Hn) in Hd; discriminate Hd ].
  all: destruct (valid_id_enumerator id Hv) as (op & <- & Hinv & Hmax).
  all: destruct op; try congruence;
    vm_compute in Hd; injection Hd as <-; simpl.
  all: first [ split; [intros _; lia | reflexivity]
             | split; [discriminate | lia]
             | reflexivity
             | lia ].
Qed.

Lemma commutative_flag_exact_witness :
  descriptor_of 10 = Some (entry (-1) true 2 true (Some "+") "add" operator_id.add)
  /\ In 10 (map operator_id.to_Z commutative_operators)
  /\ is_commutative (entry (-1) true 2 true (Some "+") "add" operator_id.add)
     = true.
Proof.
  assert (Hd : descriptor_of 10
               = Some (entry (-1) true 2 true (Some "+") "add" operator_id.add))
    by reflexivity.
  split; [exact Hd|].
  assert (Hin : In 10 (map operator_id.to_Z commutative_operators))
    by (simpl; lia).
  split; [exact Hin|].
  exact (proj2 (proj1 (commutative_flag_exact 10 _ Hd)) Hin).
Defined.

(* ================================================================== *)
(** * Further properties *)

(** ** The width rounder *)



(** X2. The fixed points of [round_bit_count] are exactly the canonical
    widths 1, 8, 16, 32 and 64; in particular 0 is not one. *)
Theorem round_bit_count_fixed_points (n : Z) :
  is_uint8 n ->
  (round_bit_count n = n <-> In n canonical_widths).
Proof.
  unfold is_uint8, canonical_widths; intros Hn. simpl. split.
  - round_cases; lia.
  - intros [<-|[<-|[<-|[<-|[<-|[]]]]]]; reflexivity.
Qed.

Lemma round_bit_count_fixed_points_witness :
  is_uint8 16 /\ round_bit_count 16 = 16
  /\ is_uint8 0 /\ round_bit_count 0 <> 0.
Proof.
  assert (H16 : is_uint8 16) by (unfold is_uint8; lia).
  assert (H0 : is_uint8 0) by (unfold is_uint8; lia).
  split; [exact H16|]. split; [|split; [exact H0|]].
  - apply (proj2 (round_bit_count_fixed_points 16 H16)). simpl; tauto.
  - intros Hfix.
    pose proof (proj1 (round_bit_count_fixed_points 0 H0) Hfix) as Hin.
    simpl in Hin. lia.
Defined.

(** X3. On 8-bit arguments the result holds the argument exactly when the
    argument is at most 64; above 64 the result stays at 64, below the
    argument. *)
Theorem round_bit_count_saturates (n : Z) :
  is_uint8 n ->
  (n <= round_bit_count n <-> n <= 64)
  /\ (64 < n -> round_bit_count n = 64).
Proof.
  unfold is_uint8; intros Hn. split; [split|]; round_cases; lia.
Qed.

Lemma round_bit_count_saturates_witness :
  is_uint8 200 /\ round_bit_count 200 = 64 /\ ~ 200 <= round_bit_count 200.
Proof.
  assert (H8 : is_uint8 200) by (unfold is_uint8; lia).
  destruct (round_bit_count_saturates 200 H8) as [Hiff Hsat].
  split; [exact H8|]. split; [apply Hsat; lia|].
  intros Hle. apply (proj1 Hiff) in Hle. lia.
Defined.

(** X4. Rounding commutes with taking the larger of two bit counts. *)
Theorem round_bit_count_max (a b : Z) :
  round_bit_count (Z.max a b) = Z.max (round_bit_count a) (round_bit_count b).
Proof.
  destruct (Z.max_spec a b) as [[Hlt ->]|[Hle ->]]; round_cases; lia.
Qed.

(** ** Invariants of the table *)

(** A descriptor handed out by the lookup is that of a named operator. *)
Lemma descriptor_of_enumerator (id : Z) (d : operator_desc) :
  descriptor_of id = Some d ->
  exists op, operator_id.to_Z op = id /\ descriptor_of_enum op = Some d.
Proof.
  intros Hd.
  destruct (valid_id_dec id) as [Hv|Hn].
  - destruct (valid_id_enumerator id Hv) as (op & Hop & _).
    exists op. split; [exact Hop|]. unfold descriptor_of_enum.
    now rewrite Hop.
  - rewrite (descriptor_of_invalid id Hn) in Hd. discriminate Hd.
Qed.

(** Case analysis on the operator behind a descriptor: [H] states that [d]
    is the descriptor of [op]; one goal is left for each table entry. *)
Ltac table_entry op H :=
  destruct op; vm_compute in H; try discriminate H; injection H as <-.

(** X5. Function names identify operators: two valid ids whose descriptors
    carry the same function name are the same id. *)
Theorem function_name_unique (i j : Z) (di dj : operator_desc) :
  descriptor_of i = Some di -> descriptor_of j = Some dj ->
  function_name di = function_name dj -> i = j.
Proof.
  intros Hi Hj Hname.
  destruct (descriptor_of_enumerator i di Hi) as (a & <- & Ha).
  destruct (descriptor_of_enumerator j dj Hj) as (b & <- & Hb).
  table_entry a Ha; table_entry b Hb; simpl in Hname;
    first [reflexivity | discriminate Hname].
Qed.

Lemma function_name_unique_witness :
  descriptor_of 29 = descriptor_of (operator_id.to_Z operator_id.max_value)
  /\ 29 = operator_id.to_Z operator_id.max_value.
Proof.
  split; [reflexivity|].
  exact (function_name_unique 29 (operator_id.to_Z operator_id.max_value)
           (entry 0 false 2 false nullptr "max" operator_id.max_value)
           (entry 0 false 2 false nullptr "max" operator_id.max_value)
           eq_refl eq_refl eq_refl).
Defined.

(** X6. Symbols identify operators up to arity: two valid ids whose
    descriptors carry the same symbol are the same id, or else the symbol is
    the minus sign and the two descriptors differ in operand count (the
    negation and the subtraction). *)
Theorem symbol_unique_up_to_arity (i j : Z) (di dj : operator_desc)
    (s : string) :
  descriptor_of i = Some di -> descriptor_of j = Some dj ->
  symbol di = Some s -> symbol dj = Some s ->
  i = j \/ (s = "-"%string /\ operand_count di <> operand_count dj).
Proof.
  intros Hi Hj Hsi Hsj.
  destruct (descriptor_of_enumerator i di Hi) as (a & <- & Ha).
  destruct (descriptor_of_enumerator j dj Hj) as (b & <- & Hb).
  table_entry a Ha; simpl in Hsi; try discriminate Hsi;
    injection Hsi as <-;
    table_entry b Hb; simpl in Hsj; try discriminate Hsj;
    first [ left; reflexivity
          | right; split; [reflexivity | simpl; lia] ].
Qed.

Lemma symbol_unique_up_to_arity_witness :
  (9 = 11 \/ ("-"%string = "-"%string /\
     operand_count (entry_nojoin (-1) true 1 false (Some "-") "neg")
     <> operand_count (entry (-1) true 2 false (Some "-") "sub"
                             operator_id.add)))
  /\ 9 <> 11.
Proof.
  split; [|lia].
  exact (symbol_unique_up_to_arity 9 11
           (entry_nojoin (-1) true 1 false (Some "-") "neg")
           (entry (-1) true 2 false (Some "-") "sub" operator_id.add)
           "-"%string eq_refl eq_refl eq_refl eq_refl).
Defined.

(** X7. The join operators are closed: when a valid descriptor names a
    join operator, that operator is itself valid, takes two operands like
    the descriptor that names it, and joins by itself. *)
Theorem join_by_closed (id : Z) (d : operator_desc) :
  descriptor_of id = Some d -> join_by d <> operator_id.invalid ->
  operand_count d = 2
  /\ exists dj, descriptor_of_enum (join_by d) = Some dj
                /\ operand_count dj = 2
                /\ join_by dj = join_by d.
Proof.
  intros Hd Hjoin.
  destruct (descriptor_of_enumerator id d Hd) as (op & <- & Hop).
  table_entry op Hop; simpl in Hjoin; try congruence;
    (split; [reflexivity|]); eexists; (split; [reflexivity|]);
    split; reflexivity.
Qed.

Lemma join_by_closed_witness :
  join_by (entry 1 false 2 false (Some ">>") "shr" operator_id.add)
    <> operator_id.invalid
  /\ exists dj,
       descriptor_of_enum
         (join_by (entry 1 false 2 false (Some ">>") "shr" operator_id.add))
       = Some dj
       /\ operand_count dj = 2
       /\ join_by dj
          = join_by (entry 1 false 2 false (Some ">>") "shr" operator_id.add).
Proof.
  assert (Hj : join_by (entry 1 false 2 false (Some ">>") "shr" operator_id.add)
               <> operator_id.invalid) by (simpl; discriminate).
  split; [exact Hj|].
  exact (proj2 (join_by_closed 5 _ eq_refl Hj)).
Defined.

(** X8. A commutative operator takes two operands, has a symbol, and either
    has no join operator or is its own join operator. *)
Theorem commutative_shape (id : Z) (d : operator_desc) :
  descriptor_of id = Some d -> is_commutative d = true ->
  operand_count d = 2
  /\ (exists s, symbol d = Some s)
  /\ (join_by d = operator_id.invalid \/ operator_id.to_Z (join_by d) = id).
Proof.
  intros Hd Hc.
  destruct (descriptor_of_enumerator id d Hd) as (op & <- & Hop).
  table_entry op Hop; simpl in Hc; try discriminate Hc;
    (split; [reflexivity|]); (split; [eexists; reflexivity|]);
    first [left; reflexivity | right; reflexivity].
Qed.

Lemma commutative_shape_witness :
  is_commutative (entry_nojoin (-1) false 2 true (Some "uh*") "umulhi") = true
  /\ operand_count (entry_nojoin (-1) false 2 true (Some "uh*") "umulhi") = 2
  /\ join_by (entry_nojoin (-1) false 2 true (Some "uh*") "umulhi")
     = operator_id.invalid.
Proof.
  split; [reflexivity|].
  split; [|reflexivity].
  exact (proj1 (commutative_shape 16 _ eq_refl eq_refl)).
Defined.

(** X9. The operators that take one operand are exactly [bitwise_not],
    [negate], [popcnt], [mask] and [bit_count]; none of them is commutative
    or has a join operator; and those among them without a symbol are exactly
    [popcnt], [mask] and [bit_count]. *)
Theorem unary_operators_exact (id : Z) (d : operator_desc) :
  descriptor_of id = Some d ->
  (operand_count d = 1 <-> In id (map operator_id.to_Z unary_operators))
  /\ (operand_count d = 1 ->
      is_commutative d = false /\ join_by d = operator_id.invalid)
  /\ (operand_count d = 1 /\ symbol d = None
      <-> In id (map operator_id.to_Z unary_function_operators)).
Proof.
  intros Hd.
  destruct (descriptor_of_enumerator id d Hd) as (op & <- & Hop).
  table_entry op Hop; simpl;
    (split; [split; intros H; lia|]);
    (split; [intros H; first [split; reflexivity | lia]|]);
    (split; [intros [H1 H2]; first [lia | discriminate H2]
            | intros H; first [split; reflexivity | lia]]).
Qed.

Lemma unary_operators_exact_witness :
  (operand_count (entry_nojoin 1 false 1 false nullptr "__mask") = 1
   <-> In 26 (map operator_id.to_Z unary_operators))
  /\ In 26 (map operator_id.to_Z unary_function_operators).
Proof.
  pose proof (unary_operators_exact 26
                (entry_nojoin 1 false 1 false nullptr "__mask") eq_refl)
    as (Hiff & _ & Hfun).
  split; [exact Hiff|].
  apply (proj1 Hfun). split; reflexivity.
Defined.

(** X10. In every valid descriptor the bitwise hint is -1, 0 or 1 and the
    signed flag is 0 or 1; an operator that prefers bitwise operands never
    expects signed ones. *)
Theorem hint_and_sign_ranges (id : Z) (d : operator_desc) :
  descriptor_of id = Some d ->
  In (hint_bitwise d) [-1; 0; 1]
  /\ In (is_signed d) [0; 1]
  /\ (0 < hint_bitwise d -> is_signed d = 0).
Proof.
  intros Hd.
  destruct (descriptor_of_enumerator id d Hd) as (op & <- & Hop).
  table_entry op Hop; simpl; lia.
Qed.

Lemma hint_and_sign_ranges_witness :
  In (hint_bitwise (entry_nojoin (-1) true 2 false nullptr "__sx")) [-1; 0; 1]
  /\ In (is_signed (entry_nojoin (-1) true 2 false nullptr "__sx")) [0; 1].
Proof.
  pose proof (hint_and_sign_ranges 21
                (entry_nojoin (-1) true 2 false nullptr "__sx") eq_refl)
    as (Hh & Hs & _).
  split; [exact Hh | exact Hs].
Defined.

(** ** The printer, on arbitrary descriptors and on the table *)

Lemma append_inv_head (p a b : string) : (p ++ a = p ++ b)%string -> a = b.
Proof.
  induction p as [|c p IH]; simpl; intros H; [exact H|].
  injection H as H. now apply IH.
Qed.

Lemma append_assoc (a b c : string) :
  ((a ++ b) ++ c = a ++ b ++ c)%string.
Proof. induction a as [|x a IH]; simpl; [reflexivity|]. now rewrite IH. Qed.

Lemma append_nil_r (a : string) : (a ++ "" = a)%string.
Proof. induction a as [|x a IH]; simpl; [reflexivity|]. now rewrite IH. Qed.

(** Splitting of a goal built from conjunctions and equivalences over
    outcomes, operand counts and null tests, and closing of the pieces. *)
Ltac outcome_cases :=
  repeat match goal with
         | |- _ /\ _ => split
         | |- _ <-> _ => split
         | |- _ -> _ => intro
         | H : _ /\ _ |- _ => destruct H
         | H : _ \/ _ |- _ => destruct H
         | H : exists _, _ |- _ => destruct H
         end;
  solve [ congruence | lia | reflexivity | eexists; reflexivity
        | left; congruence | right; congruence ].

(** X11. The printer fails in two ways only.  It arrives at [unreachable()]
    exactly when the operand count is neither 1 nor 2, and it formats a null
    name exactly when the operand count is 1 or 2 and both the symbol and the
    function name are null; in every other case it returns a string.  None of
    this depends on the operand strings. *)
Theorem to_string_outcome (d : operator_desc) (lhs rhs : string) :
  (to_string d lhs rhs = Fault unreachable_reached
   <-> operand_count d <> 1 /\ operand_count d <> 2)
  /\ (to_string d lhs rhs = Fault null_string_formatted
      <-> (operand_count d = 1 \/ operand_count d = 2)
          /\ symbol d = None /\ function_name d = None)
  /\ ((exists s, to_string d lhs rhs = Ok s)
      <-> (operand_count d = 1 \/ operand_count d = 2)
          /\ (symbol d <> None \/ function_name d <> None)).
Proof.
  unfold to_string.
  destruct (Z.eqb_spec (operand_count d) 1) as [H1|H1];
    [|destruct (Z.eqb_spec (operand_count d) 2) as [H2|H2]];
    destruct (symbol d) as [sym|]; destruct (function_name d) as [fn|];
    simpl; outcome_cases.
Qed.

Lemma to_string_outcome_witness :
  to_string empty_entry "a" "b" = Fault unreachable_reached
  /\ to_string (mk_operator_desc 0 0 2 false None None operator_id.invalid)
               "a" "b" = Fault null_string_formatted.
Proof.
  split.
  - apply (proj2 (proj1 (to_string_outcome empty_entry "a" "b"))).
    simpl. lia.
  - apply (proj2 (proj1 (proj2 (to_string_outcome
             (mk_operator_desc 0 0 2 false None None operator_id.invalid)
             "a" "b")))).
    simpl. split; [lia | split; reflexivity].
Defined.

(** X12. With one operand, the printer reads a single operand string: [rhs]
    when the descriptor has a symbol, so the result does not depend on
    [lhs]; and [lhs] when it has none, so the result does not depend on
    [rhs]. *)
Theorem to_string_unary_reads_one_operand (d : operator_desc)
    (lhs lhs' rhs rhs' : string) :
  operand_count d = 1 ->
  (symbol d <> None -> to_string d lhs rhs = to_string d lhs' rhs)
  /\ (symbol d = None -> to_string d lhs rhs = to_string d lhs rhs').
Proof.
  intros Hn. unfold to_string. rewrite Hn. simpl.
  destruct (symbol d) as [sym|]; split; intros Hs;
    first [congruence | reflexivity].
Qed.

Lemma to_string_unary_reads_one_operand_witness :
  to_string (entry_nojoin 1 false 1 false (Some "~") "not") "p" "x"
    = to_string (entry_nojoin 1 false 1 false (Some "~") "not") "q" "x"
  /\ to_string (entry_nojoin 1 false 1 false nullptr "__bcnt") "p" "x"
     = to_string (entry_nojoin 1 false 1 false nullptr "__bcnt") "p" "y".
Proof.
  split.
  - apply (proj1 (to_string_unary_reads_one_operand
                    (entry_nojoin 1 false 1 false (Some "~") "not")
                    "p" "q" "x" "x" eq_refl)).
    simpl. discriminate.
  - apply (proj2 (to_string_unary_reads_one_operand
                    (entry_nojoin 1 false 1 false nullptr "__bcnt")
                    "p" "p" "x" "y" eq_refl)).
    reflexivity.
Defined.

(** A descriptor that is unary with a symbol, or binary with a symbol or a
    name, prints [rhs] in a slot: the text before the slot depends on [lhs]
    only and the text after it on nothing. *)
Lemma to_string_rhs_slot (d : operator_desc) :
  (operand_count d = 1 /\ exists sym, symbol d = Some sym)
  \/ (operand_count d = 2
      /\ ((exists sym, symbol d = Some sym)
          \/ exists fn, function_name d = Some fn)) ->
  exists post, forall lhs, exists pre, forall rhs,
    to_string d lhs rhs = Ok (pre ++ rhs ++ post)%string.
Proof.
  intros [[Hn [sym Hs]]|[Hn Hprint]].
  - exists ""%string. intros lhs. exists sym. intros rhs.
    rewrite append_nil_r. now apply to_string_unary_symbol.
  - destruct (symbol d) as [sym|] eqn:Hs.
    + exists ")"%string. intros lhs. exists ("(" ++ lhs ++ sym)%string.
      intros rhs.
      rewrite (to_string_binary_symbol d lhs rhs sym Hn Hs).
      f_equal. simpl. f_equal. now rewrite append_assoc.
    + destruct Hprint as [[sym Hsym]|[fn Hf]]; [discriminate Hsym|].
      exists ")"%string. intros lhs.
      exists (fn ++ "(" ++ lhs ++ ", ")%string. intros rhs.
      rewrite (to_string_binary_function d lhs rhs fn Hn Hs Hf).
      f_equal. rewrite append_assoc. f_equal. simpl. f_equal.
      now rewrite append_assoc.
Qed.

(** X13. Every valid operator other than [popcnt], [mask] and [bit_count]
    prints [rhs]: its output is [rhs] between a prefix that depends on [lhs]
    only and a fixed suffix.  For those three the output does not depend on
    [rhs] at all. *)
Theorem rhs_printed_except_unary_function (id : Z) (d : operator_desc) :
  descriptor_of id = Some d ->
  (~ In id (map operator_id.to_Z unary_function_operators) ->
   exists post, forall lhs, exists pre, forall rhs,
     to_string d lhs rhs = Ok (pre ++ rhs ++ post)%string)
  /\ (In id (map operator_id.to_Z unary_function_operators) ->
      forall lhs rhs rhs', to_string d lhs rhs = to_string d lhs rhs').
Proof.
  intros Hd.
  destruct (descriptor_of_enumerator id d Hd) as (op & <- & Hop).
  table_entry op Hop; simpl; split; intros Hin;
    first
      [ exfalso; lia
      | intros lhs rhs rhs'; reflexivity
      | apply to_string_rhs_slot; left;
        split; [reflexivity | eexists; reflexivity]
      | apply to_string_rhs_slot; right; split; [reflexivity|];
        first [left; eexists; reflexivity | right; eexists; reflexivity] ].
Qed.

Lemma rhs_printed_except_unary_function_witness :
  ~ In 11 (map operator_id.to_Z unary_function_operators)
  /\ exists post, forall lhs, exists pre, forall rhs,
       to_string (entry (-1) true 2 false (Some "-") "sub" operator_id.add)
                 lhs rhs
       = Ok (pre ++ rhs ++ post)%string.
Proof.
  assert (Hout : ~ In 11 (map operator_id.to_Z unary_function_operators))
    by (simpl; lia).
  split; [exact Hout|].
  exact (proj1 (rhs_printed_except_unary_function 11
                  (entry (-1) true 2 false (Some "-") "sub" operator_id.add)
                  eq_refl) Hout).
Defined.

(** X14. Printing tells the operators apart: if two valid operators print
    the same operand strings to the same text, they are the same operator. *)
Theorem to_string_distinguishes_operators (i j : Z) (di dj : operator_desc)
    (lhs rhs : string) :
  descriptor_of i = Some di -> descriptor_of j = Some dj ->
  to_string di lhs rhs = to_string dj lhs rhs -> i = j.
Proof.
  intros Hi Hj H.
  destruct (descriptor_of_enumerator i di Hi) as (a & <- & Ha).
  destruct (descriptor_of_enumerator j dj Hj) as (b & <- & Hb).
  table_entry a Ha; table_entry b Hb;
    first [ reflexivity
          | cbv - [append] in H; simpl in H;
            first [ discriminate H
                  | injection H as H; apply append_inv_head in H;
                    first [ discriminate H
                          | apply (f_equal String.length) in H;
                            simpl in H; lia ] ] ].
Qed.

Lemma to_string_distinguishes_operators_witness :
  to_string (entry_nojoin (-1) true 2 false (Some "<") "less") "a" "b"
    = Ok "(a<b)"
  /\ 38 = operator_id.to_Z operator_id.less.
Proof.
  split; [reflexivity|].
  exact (to_string_distinguishes_operators
           38 (operator_id.to_Z operator_id.less)
           (entry_nojoin (-1) true 2 false (Some "<") "less")
           (entry_nojoin (-1) true 2 false (Some "<") "less")
           "a" "b" eq_refl eq_refl eq_refl).
Defined.
